(** * Kronig-Penney energy bands: a model of [EnergyBand.py]

    The module solves the Kronig-Penney dispersion relation with an external
    root-finder ([scipy.optimize.fsolve]), sweeps it over one Brillouin zone
    ([numpy.linspace], [numpy.vectorize]) and hands the bands to a plotting
    sink ([matplotlib]).

    Conventions of the model.
    - Python floats are idealised as the real numbers [R]; Python integers
      are [Z].
    - A division whose divisor is zero has no value: [None] for the numpy
      arithmetic inside the residual (where the float result is inf or nan),
      [ZeroDivisionError] for the division of Python scalars.
    - [fsolve] is a black box.  Every request it receives is recorded, so
      that the number and the contents of the calls can be stated.
    - The one-element arrays that [fsolve] returns are identified with their
      single component.
    - The [**kwargs] of [E], [getBands] and [plotBands] are accepted by the
      source and never forwarded to [fsolve] (line 28 passes [args] only);
      they are left out. *)

From Stdlib Require Import Reals Lra List ZArith String DecimalString.
From Stdlib Require Import FunctionalExtensionality Lia.
Import ListNotations.
Local Open Scope R_scope.

(** ** Exceptions, the call trace and the monad that carries them *)

Inductive exn : Type :=
| ZeroDivisionError
| ValueError.

(** The type of [_Kronig_Penney]: [func(x, *args)] with three extra arguments. *)
Definition residual_fn : Type := R -> R -> R -> R -> option R.

(** One request received by [fsolve(func, x0, args=...)]. *)
Record fsolve_call : Type := FsolveCall
  { fc_func : residual_fn;
    fc_x0 : R;
    fc_args : R * R * R }.

Definition trace : Type := list fsolve_call.

(** A computation either raises or returns, and leaves the requests it made
    to the root-finder, oldest first. *)
Definition M (A : Type) : Type := ((exn + A) * trace)%type.

Definition ret {A : Type} (x : A) : M A := (inr x, []).

Definition raise {A : Type} (e : exn) : M A := (inl e, []).

Definition bind {A B : Type} (m : M A) (f : A -> M B) : M B :=
  match m with
  | (inl e, t) => (inl e, t)
  | (inr x, t) => let (r, t') := f x in (r, t ++ t')
  end.

Notation "x <- m ;; k" := (bind m (fun x => k))
  (at level 61, m at next level, right associativity).

Fixpoint mapM {A B : Type} (f : A -> M B) (xs : list A) : M (list B) :=
  match xs with
  | [] => ret []
  | x :: xs' =>
      y <- f x ;;
      ys <- mapM f xs' ;;
      ret (y :: ys)
  end.

Definition value {A : Type} (m : M A) : exn + A := fst m.

Definition calls {A : Type} (m : M A) : trace := snd m.

(** A keyword argument with a default. *)
Definition arg_or {A : Type} (given : option A) (dflt : A) : A :=
  match given with
  | Some x => x
  | None => dflt
  end.

(** [x / y] on Python scalars. *)
Definition py_div (x y : R) : M R :=
  if Req_dec_T y 0 then raise ZeroDivisionError else ret (x / y).

(** [x / y] on numpy values: no exception, and no value when [y] is zero. *)
Definition true_divide (x y : R) : option R :=
  if Req_dec_T y 0 then None else Some (x / y).

(** ["{}".format(i)] for an integer. *)
Definition format_int (i : Z) : string := NilZero.string_of_int (Z.to_int i).

(** [range(n)] *)
Definition range (n : Z) : list Z := map Z.of_nat (seq 0 (Z.to_nat n)).

(** [enumerate(xs)] *)
Definition enumerate {A : Type} (xs : list A) : list (Z * A) :=
  combine (range (Z.of_nat (List.length xs))) xs.

(** ** The part of numpy the module uses *)

Module np.

(** A wavenumber argument: "a number or an numpy.array" (one axis). *)
Inductive ndarray : Type :=
| Scalar (x : R)
| Seq (xs : list R).

(** [arg.flat[0]] *)
Definition flat0 (v : ndarray) : option R :=
  match v with
  | Scalar x => Some x
  | Seq xs => hd_error xs
  end.

(** [y[-1] = stop] *)
Definition set_last (y : list R) (stop : R) : list R :=
  match y with
  | [] => []
  | _ :: _ => removelast y ++ [stop]
  end.

(** [numpy.linspace(start, stop, num)] with [endpoint=True]:
    [y = arange(0, num) * step + start] where [step = (stop - start) / (num - 1)],
    and the last sample is overwritten with [stop] when [num > 1].
    (numpy computes [y / div * delta] instead when [step == 0], and
    [y * delta] when [num == 1]; over [R] the three coincide.) *)
Definition linspace (start stop : R) (num : nat) : list R :=
  let div := (num - 1)%nat in
  let delta := stop - start in
  let step := delta / INR div in
  let y := map (fun j => INR j * step + start) (seq 0 num) in
  if (1 <? num)%nat then set_last y stop else y.

(** [numpy.vectorize(pyfunc)] with the defaults [otypes=None, cache=False],
    applied to one array argument.  As numpy documents, without [otypes]
    the wrapper first calls [pyfunc] on the first entry to learn the output
    type (and refuses an input of size 0), and without [cache] that result
    is discarded: the elementwise pass computes the first entry again. *)
Definition vectorize (pyfunc : R -> M R) (arg : ndarray) : M ndarray :=
  match flat0 arg with
  | None => raise ValueError
  | Some first =>
      _ <- pyfunc first ;;
      match arg with
      | Scalar x => y <- pyfunc x ;; ret (Scalar y)
      | Seq xs => ys <- mapM pyfunc xs ;; ret (Seq ys)
      end
  end.

Definition negative (v : ndarray) : ndarray :=
  match v with
  | Scalar x => Scalar (- x)
  | Seq xs => Seq (map Ropp xs)
  end.

End np.

Import np.

(** ** The plotting sink *)

Record figure : Type := Figure
  { figsize : Z * Z;
    dpi : Z }.

(** The calls an axes object has received, oldest first. *)
Inductive ax_call : Type :=
| plot (x : list R) (y : ndarray) (label : string)
| set_xlabel (s : string)
| set_ylabel (s : string)
| set_title (s : string)
| minorticks_on
| grid (b : bool)
| legend.

Definition axes : Type := list ax_call.

(** [plt.subplots(figsize=..., dpi=...)] *)
Definition subplots (size : Z * Z) (d : Z) : figure * axes :=
  (Figure size d, []).

(** The series an axes object holds, in plotting order. *)
Definition series (ax : axes) : list (list R * ndarray * string) :=
  flat_map (fun c => match c with
                     | plot x y l => [(x, y, l)]
                     | _ => []
                     end) ax.

Definition labels (ax : axes) : list string :=
  map snd (series ax).

(** ** EnergyBand.py *)

(** The root-finder: from a residual in one unknown and an initial guess to
    a root estimate. *)
Definition solver : Type := (R -> option R) -> R -> R.

(** [_Kronig_Penney(K, k, a, U0b)]:
    [U0b / (2*K) * sin(K * a) + cos(K * a) - cos(k * a)] *)
Definition _Kronig_Penney (K k a U0b : R) : option R :=
  match true_divide U0b (2 * K) with
  | Some q => Some (q * sin (K * a) + cos (K * a) - cos (k * a))
  | None => None
  end.

Section Model.

Variable solve : solver.

(** [scipy.optimize.fsolve(func, x0, args)]: the extra arguments reach the
    root-finder only through [func(x, *args)]. *)
Definition fsolve (func : residual_fn) (x0 : R) (args : R * R * R) : M R :=
  let '(k, a, U0b) := args in
  (inr (solve (fun K => func K k a U0b) x0), [FsolveCall func x0 args]).

(** The function [E] as written, before the decorator (lines 15-29). *)
Definition E_pyfunc (k : R) (n : Z) (a U0b : R) : M R :=
  K <- fsolve _Kronig_Penney ((IZR n + 1 / 2) * PI) (k, a, U0b) ;;
  ret (K ^ 2).

(** [E(k, n=1, a=1, U0b=4)], decorated with [@np.vectorize]. *)
Definition E (k : ndarray) (n : option Z) (a U0b : option R) : M ndarray :=
  let n := arg_or n 1%Z in
  let a := arg_or a 1 in
  let U0b := arg_or U0b 4 in
  vectorize (fun k => E_pyfunc k n a U0b) k.

(** [k = np.linspace(-pi/a, pi/a, 100)] *)
Definition brillouin_zone (a : R) : M (list R) :=
  lo <- py_div (- PI) a ;;
  hi <- py_div PI a ;;
  ret (linspace lo hi 100).

(** [getBands(n=3, a=1, U0b=4)] *)
Definition getBands (n : option Z) (a U0b : option R) : M (list ndarray) :=
  let n := arg_or n 3%Z in
  let a := arg_or a 1 in
  let U0b := arg_or U0b 4 in
  k <- brillouin_zone a ;;
  bands <- mapM (fun i => E (Seq k) (Some i) (Some a) (Some 4)) (range n) ;;
  ret bands.

(** [plotBands(n=3, a=1, U0b=4, title=None)] *)
Definition plotBands (n : option Z) (a U0b : option R) (title : option string)
  : M (figure * axes) :=
  let n := arg_or n 3%Z in
  let a := arg_or a 1 in
  let U0b := arg_or U0b 4 in
  let title :=
    match title with
    | None => ("Plotting of " ++ format_int n ++ " bands")%string
    | Some t => t
    end in
  k <- brillouin_zone a ;;
  bands <- getBands (Some n) (Some a) (Some U0b) ;;
  let (fig, ax) := subplots (5, 15)%Z 200%Z in
  let ax :=
    fold_left
      (fun ax ib =>
         ax ++ [plot k (snd ib) ("$" ++ format_int (fst ib) ++ "$-th band")%string])
      (enumerate bands) ax in
  let ax := ax ++ [set_xlabel "$k$"] in
  let ax := ax ++ [set_ylabel "$2m E/\hbar^2$"] in
  let ax := ax ++ [set_title title] in
  let ax := ax ++ [minorticks_on] in
  let ax := ax ++ [grid true] in
  let ax := ax ++ [legend] in
  ret (fig, ax).

(** [if __name__ == "__main__": plotBands()] *)
Definition main : M (figure * axes) :=
  plotBands None None None None.

End Model.


(** ** Vocabulary of the statements *)

(** The initial guess handed to the root-finder for band [n]. *)
Definition initial_guess (n : Z) : R := (IZR n + 1 / 2) * PI.

(** The request the solver body sends for one sample. *)
Definition request (k : R) (n : Z) (a U0b : R) : fsolve_call :=
  FsolveCall _Kronig_Penney (initial_guess n) (k, a, U0b).

(** What the root-finder answers to that request. *)
Definition root (solve : solver) (k : R) (n : Z) (a U0b : R) : R :=
  solve (fun K => _Kronig_Penney K k a U0b) (initial_guess n).

(** The Kronig-Penney relation itself. *)
Definition dispersion_relation (K k a U0b : R) : Prop :=
  U0b / (2 * K) * sin (K * a) + cos (K * a) = cos (k * a).

(** The wavenumber with index [j] of the sweep over one Brillouin zone. *)
Definition sample (a : R) (j : nat) : R :=
  - PI / a + INR j * ((PI / a - - PI / a) / 99).

(** The sweep: 100 wavenumbers. *)
Definition kgrid (a : R) : list R := map (sample a) (seq 0 100).

(** The energies of band [i] over the sweep, for a potential parameter [U]. *)
Definition band (solve : solver) (a U : R) (i : Z) : ndarray :=
  Seq (map (fun k => root solve k i a U ^ 2) (kgrid a)).

(** The requests the root-finder receives while band [i] is computed. *)
Definition band_requests (a U : R) (i : Z) : trace :=
  request (sample a 0) i a U :: map (fun k => request k i a U) (kgrid a).

(** The label of series [i] as the source formats it. *)
Definition band_label (i : Z) : string :=
  ("$" ++ format_int i ++ "$-th band")%string.

(** The calls that configure the axes after the series are plotted. *)
Definition decoration (title : string) : list ax_call :=
  [set_xlabel "$k$"; set_ylabel "$2m E/\hbar^2$"; set_title title;
   minorticks_on; grid true; legend].

(** The titles an axes object has been given, oldest first. *)
Definition titles (ax : axes) : list string :=
  flat_map (fun c => match c with
                     | set_title s => [s]
                     | _ => []
                     end) ax.

Definition is_plot (c : ax_call) : Prop :=
  match c with
  | plot _ _ _ => True
  | _ => False
  end.

(** Every energy an array holds is at least zero. *)
Definition nonnegative (v : ndarray) : Prop :=
  match v with
  | Scalar e => 0 <= e
  | Seq es => Forall (fun e => 0 <= e) es
  end.

(** A root-finder that gives up at once: its best estimate is the initial
    guess.  It serves as a concrete instance of the black box. *)
Definition seed_solver : solver := fun _ x0 => x0.

(** ** Readings of the specification that the code does not satisfy *)

(** "the band index defaults to 0, meaning the lowest band" *)
Definition default_band_is_lowest : Prop :=
  forall (solve : solver) (k a U0b : R),
    value (E solve (Scalar k) None (Some a) (Some U0b))
    = value (E solve (Scalar k) (Some 0%Z) (Some a) (Some U0b)).

(** "the root-finder is invoked exactly once per sample" *)
Definition one_request_per_scalar_call : Prop :=
  forall (solve : solver) (k : R) (n : Z) (a U0b : R),
    E solve (Scalar k) (Some n) (Some a) (Some U0b)
    = (inr (Scalar (root solve k n a U0b ^ 2)), [request k n a U0b]).

(** "when k is a sequence of length m ... a result sequence of the same shape" *)
Definition elementwise_on_every_sequence : Prop :=
  forall (solve : solver) (ks : list R) (n : Z) (a U0b : R),
  exists ys : list R,
    value (E solve (Seq ks) (Some n) (Some a) (Some U0b)) = inr (Seq ys)
    /\ List.length ys = List.length ks
    /\ forall (j : nat) (k : R),
         nth_error ks j = Some k ->
         exists y : R,
           nth_error ys j = Some y
           /\ value (E solve (Scalar k) (Some n) (Some a) (Some U0b))
              = inr (Scalar y).

(** "the i-th series carries the legend label {i}-th band" *)
Definition labels_are_plain : Prop :=
  forall (solve : solver) (N : nat) (a U0b : R) (title : option string),
    a <> 0 ->
    exists (fig : figure) (ax : axes),
      value (plotBands solve (Some (Z.of_nat N)) (Some a) (Some U0b) title)
      = inr (fig, ax)
      /\ labels ax
         = map (fun i => (format_int i ++ "-th band")%string) (range (Z.of_nat N)).

(** ** The monad *)

Lemma bind_ret_l {A B : Type} (x : A) (f : A -> M B) :
  (y <- ret x ;; f y) = f x.
Proof.
  unfold bind, ret. destruct (f x) as [r t]. reflexivity.
Qed.

Lemma bind_run {A B : Type} (m : M A) (f : A -> M B) (x : A) (t : trace)
      (r : exn + B) (t' : trace) :
  m = (inr x, t) -> f x = (r, t') -> bind m f = (r, t ++ t').
Proof.
  intros -> Hf. unfold bind. rewrite Hf. reflexivity.
Qed.

Lemma bind_ret_r {A B : Type} (m : M A) (g : A -> B) (x : A) (t : trace) :
  m = (inr x, t) -> (y <- m ;; ret (g y)) = (inr (g x), t).
Proof.
  intros ->. unfold bind, ret. rewrite app_nil_r. reflexivity.
Qed.

Lemma bind_raise {A B : Type} (m : M A) (f : A -> M B) (e : exn) (t : trace) :
  m = (inl e, t) -> bind m f = (inl e, t).
Proof.
  intros ->. reflexivity.
Qed.

(** A loop whose every iteration returns, returns the list of the results
    and leaves the traces of the iterations one after the other. *)
Lemma mapM_run {A B : Type} (f : A -> M B) (g : A -> B) (tr : A -> trace)
      (xs : list A) :
  (forall x, In x xs -> f x = (inr (g x), tr x)) ->
  mapM f xs = (inr (map g xs), flat_map tr xs).
Proof.
  induction xs as [|x xs IH]; intros Hf.
  - reflexivity.
  - cbn [mapM map flat_map].
    eapply bind_run.
    + apply Hf. left. reflexivity.
    + erewrite bind_run with (t' := []).
      * rewrite app_nil_r. reflexivity.
      * apply IH. intros y Hy. apply Hf. right. exact Hy.
      * reflexivity.
Qed.

Lemma flat_map_singleton {A B : Type} (f : A -> B) (xs : list A) :
  flat_map (fun x => [f x]) xs = map f xs.
Proof.
  induction xs as [|x xs IH]; cbn; [reflexivity | now rewrite IH].
Qed.

(** ** Python division *)

Lemma py_div_run (x y : R) : y <> 0 -> py_div x y = ret (x / y).
Proof.
  intros Hy. unfold py_div. destruct (Req_dec_T y 0) as [E0|_]; [contradiction|].
  reflexivity.
Qed.

Lemma py_div_zero (x : R) : py_div x 0 = (inl ZeroDivisionError, []).
Proof.
  unfold py_div. destruct (Req_dec_T 0 0) as [_|N]; [reflexivity|].
  exfalso. apply N. reflexivity.
Qed.

Lemma true_divide_run (x y : R) : y <> 0 -> true_divide x y = Some (x / y).
Proof.
  intros Hy. unfold true_divide.
  destruct (Req_dec_T y 0) as [E0|_]; [contradiction | reflexivity].
Qed.

Lemma true_divide_zero (x : R) : true_divide x 0 = None.
Proof.
  unfold true_divide. destruct (Req_dec_T 0 0) as [_|N]; [reflexivity|].
  exfalso. apply N. reflexivity.
Qed.

(** ** The residual and the initial guess *)

Lemma Kronig_Penney_run (K k a U0b : R) :
  K <> 0 ->
  _Kronig_Penney K k a U0b
  = Some (U0b / (2 * K) * sin (K * a) + cos (K * a) - cos (k * a)).
Proof.
  intros HK. unfold _Kronig_Penney.
  rewrite true_divide_run by lra. reflexivity.
Qed.

Lemma Kronig_Penney_at_zero (k a U0b : R) : _Kronig_Penney 0 k a U0b = None.
Proof.
  unfold _Kronig_Penney. replace (2 * 0) with 0 by lra.
  rewrite true_divide_zero. reflexivity.
Qed.

Lemma Kronig_Penney_even (K k a U0b : R) :
  _Kronig_Penney K (- k) a U0b = _Kronig_Penney K k a U0b.
Proof.
  unfold _Kronig_Penney.
  replace (- k * a) with (- (k * a)) by lra.
  rewrite cos_neg. reflexivity.
Qed.

(** No integer is the opposite of one half. *)
Lemma initial_guess_nonzero (n : Z) : initial_guess n <> 0.
Proof.
  unfold initial_guess. intros H.
  assert (HPI := PI_RGT_0).
  assert (Hn : IZR n + 1 / 2 = 0) by nra.
  assert (H2 : IZR (2 * n + 1) = 0).
  { rewrite plus_IZR, mult_IZR. simpl. lra. }
  apply eq_IZR_R0 in H2. lia.
Qed.

(** ** linspace *)

Lemma set_last_snoc (l : list R) (x stop : R) :
  set_last (l ++ [x]) stop = l ++ [stop].
Proof.
  unfold set_last. destruct (l ++ [x]) eqn:Hl.
  - destruct l; discriminate.
  - rewrite <- Hl, removelast_last. reflexivity.
Qed.

(** With at least two samples, sample [j] is [start + j * (stop - start) / (num - 1)],
    the last one included. *)
Lemma linspace_closed_form (start stop : R) (m : nat) :
  (1 <= m)%nat ->
  linspace start stop (S m)
  = map (fun j => start + INR j * ((stop - start) / INR m)) (seq 0 (S m)).
Proof.
  intros Hm. unfold linspace.
  replace (S m - 1)%nat with m by lia.
  destruct (Nat.ltb_spec 1 (S m)) as [_|Hlt]; [|lia].
  rewrite seq_S, !map_app. cbn [map Nat.add].
  rewrite set_last_snoc. f_equal.
  - apply map_ext. intros j. lra.
  - f_equal. assert (INR m <> 0) by (apply not_0_INR; lia). field. assumption.
Qed.

Lemma brillouin_zone_run (a : R) :
  a <> 0 -> brillouin_zone a = ret (kgrid a).
Proof.
  intros Ha. unfold brillouin_zone.
  rewrite !py_div_run, !bind_ret_l by exact Ha.
  unfold ret, kgrid. f_equal. f_equal.
  rewrite linspace_closed_form by lia.
  apply map_ext. intros j. unfold sample.
  replace (INR 99) with 99; [reflexivity|].
  rewrite INR_IZR_INZ. reflexivity.
Qed.

Lemma brillouin_zone_zero : brillouin_zone 0 = (inl ZeroDivisionError, []).
Proof.
  unfold brillouin_zone. apply bind_raise. apply py_div_zero.
Qed.

Lemma sample_first (a : R) : sample a 0 = - PI / a.
Proof.
  unfold sample. simpl. lra.
Qed.

Lemma sample_last (a : R) : a <> 0 -> sample a 99 = PI / a.
Proof.
  intros Ha. unfold sample.
  replace (INR 99) with 99 by (rewrite INR_IZR_INZ; reflexivity).
  field. exact Ha.
Qed.

Lemma sample_step (a : R) (j : nat) :
  sample a (S j) - sample a j = 2 * PI / a / 99.
Proof.
  unfold sample. rewrite S_INR. unfold Rdiv. lra.
Qed.

(** ** The energy solver *)

Section Solver.

Variable solve : solver.

(** One evaluation of the body: one request, and the square of the answer. *)
Lemma E_pyfunc_run (k : R) (n : Z) (a U0b : R) :
  E_pyfunc solve k n a U0b
  = (inr (root solve k n a U0b ^ 2), [request k n a U0b]).
Proof.
  reflexivity.
Qed.

(** A scalar call evaluates the body twice: the probe, then the element. *)
Lemma E_scalar_run (k : R) (n : Z) (a U0b : R) :
  E solve (Scalar k) (Some n) (Some a) (Some U0b)
  = (inr (Scalar (root solve k n a U0b ^ 2)),
     [request k n a U0b; request k n a U0b]).
Proof.
  reflexivity.
Qed.

Lemma E_seq_run (k0 : R) (ks : list R) (n : Z) (a U0b : R) :
  E solve (Seq (k0 :: ks)) (Some n) (Some a) (Some U0b)
  = (inr (Seq (map (fun k => root solve k n a U0b ^ 2) (k0 :: ks))),
     request k0 n a U0b :: map (fun k => request k n a U0b) (k0 :: ks)).
Proof.
  unfold E, vectorize. cbn [flat0 hd_error arg_or].
  eapply bind_run with (t := [_]); [apply E_pyfunc_run|].
  apply bind_ret_r with (g := Seq).
  rewrite <- flat_map_singleton.
  apply mapM_run with (g := fun k => root solve k n a U0b ^ 2)
                      (tr := fun k => [request k n a U0b]).
  intros x _. apply E_pyfunc_run.
Qed.

Lemma E_empty (n : option Z) (a U0b : option R) :
  E solve (Seq []) n a U0b = (inl ValueError, []).
Proof.
  reflexivity.
Qed.

End Solver.

(** ** The band assembler and the presenter *)

Lemma length_range (n : Z) : List.length (range n) = Z.to_nat n.
Proof.
  unfold range. rewrite length_map, length_seq. reflexivity.
Qed.

Lemma nth_error_range (n : Z) (i : nat) :
  (i < Z.to_nat n)%nat -> nth_error (range n) i = Some (Z.of_nat i).
Proof.
  intros Hi. unfold range. rewrite nth_error_map, nth_error_seq.
  destruct (Nat.ltb_spec i (Z.to_nat n)); [reflexivity | lia].
Qed.

Lemma fold_left_snoc {A B : Type} (h : B -> A) (xs : list B) (acc : list A) :
  fold_left (fun l x => l ++ [h x]) xs acc = acc ++ map h xs.
Proof.
  revert acc. induction xs as [|x xs IH]; intros acc; cbn.
  - now rewrite app_nil_r.
  - rewrite IH, <- app_assoc. reflexivity.
Qed.

Lemma map_fst_combine {A B : Type} (xs : list A) (ys : list B) :
  List.length xs = List.length ys -> map fst (combine xs ys) = xs.
Proof.
  revert ys. induction xs as [|x xs IH]; intros [|y ys] H; cbn in *;
    try discriminate; [reflexivity|].
  f_equal. apply IH. lia.
Qed.

Lemma map_fst_enumerate {A : Type} (xs : list A) :
  map fst (enumerate xs) = range (Z.of_nat (List.length xs)).
Proof.
  unfold enumerate. apply map_fst_combine.
  rewrite length_range. lia.
Qed.

Lemma series_plots {B : Type} (h : B -> list R * ndarray * string)
      (xs : list B) (rest : list ax_call) :
  series rest = [] ->
  series (map (fun x => let '(k, y, l) := h x in plot k y l) xs ++ rest)
  = map h xs.
Proof.
  intros Hrest. unfold series in *. rewrite flat_map_app, Hrest, app_nil_r.
  induction xs as [|x xs IH]; cbn; [reflexivity|].
  rewrite IH. destruct (h x) as [[k y] l]. reflexivity.
Qed.

Section Assembler.

Variable solve : solver.

(** The sweep is not empty, so every band is computed; the potential handed
    to the solver is the literal 4 of line 46. *)
Lemma getBands_run (n : Z) (a : R) (U0b : option R) :
  a <> 0 ->
  getBands solve (Some n) (Some a) U0b
  = (inr (map (band solve a 4) (range n)),
     flat_map (band_requests a 4) (range n)).
Proof.
  intros Ha. unfold getBands. cbn [arg_or].
  rewrite brillouin_zone_run, bind_ret_l by exact Ha.
  apply bind_ret_r with (g := fun bands => bands).
  apply mapM_run. intros i _.
  unfold band, band_requests, kgrid.
  change (seq 0 100) with (0 :: seq 1 99)%nat. cbn [map].
  apply E_seq_run.
Qed.

Lemma getBands_zero_spacing (n : option Z) (U0b : option R) :
  getBands solve n (Some 0) U0b = (inl ZeroDivisionError, []).
Proof.
  unfold getBands. cbn [arg_or]. apply bind_raise. apply brillouin_zone_zero.
Qed.

Lemma plotBands_run (n : Z) (a U0b : R) (title : option string) :
  a <> 0 ->
  plotBands solve (Some n) (Some a) (Some U0b) title
  = (inr (Figure (5, 15)%Z 200%Z,
          map (fun ib => plot (kgrid a) (snd ib) (band_label (fst ib)))
              (enumerate (map (band solve a 4) (range n)))
          ++ decoration
               (match title with
                | None => ("Plotting of " ++ format_int n ++ " bands")%string
                | Some t => t
                end)),
     flat_map (band_requests a 4) (range n)).
Proof.
  intros Ha. unfold plotBands. cbn [arg_or].
  rewrite brillouin_zone_run, bind_ret_l by exact Ha.
  rewrite (getBands_run n a (Some U0b) Ha).
  unfold bind, ret. cbn [subplots]. rewrite app_nil_r, fold_left_snoc.
  cbn [app]. rewrite <- !app_assoc. reflexivity.
Qed.

End Assembler.

(** ** Facts shared by the statements below *)

Lemma E_resolve_defaults (solve : solver) (k : ndarray) (n : option Z)
      (a U0b : option R) :
  E solve k n a U0b
  = E solve k (Some (arg_or n 1%Z)) (Some (arg_or a 1)) (Some (arg_or U0b 4)).
Proof.
  reflexivity.
Qed.

(** Every request of a call of [E] is the request of one of its samples. *)
Lemma E_requests (solve : solver) (k : ndarray) (n : Z) (a U0b : R)
      (c : fsolve_call) :
  In c (calls (E solve k (Some n) (Some a) (Some U0b))) ->
  exists x : R, c = request x n a U0b.
Proof.
  destruct k as [x|[|k0 ks]].
  - rewrite E_scalar_run. cbn. intros [H|[H|[]]]; exists x; now rewrite H.
  - rewrite E_empty. intros [].
  - rewrite E_seq_run. unfold calls. cbn [snd]. intros [H|H].
    + exists k0. now rewrite H.
    + apply in_map_iff in H. destruct H as [x [H _]]. exists x. now rewrite H.
Qed.

(** The residual for [- k] is the residual for [k], so the root-finder is
    asked the same question. *)
Lemma root_even (solve : solver) (k : R) (n : Z) (a U0b : R) :
  root solve (- k) n a U0b = root solve k n a U0b.
Proof.
  unfold root. f_equal.
  apply functional_extensionality. intros K. apply Kronig_Penney_even.
Qed.

Lemma nth_error_kgrid (a : R) (j : nat) :
  (j < 100)%nat -> nth_error (kgrid a) j = Some (sample a j).
Proof.
  intros Hj. unfold kgrid. rewrite nth_error_map, nth_error_seq.
  destruct (Nat.ltb_spec j 100); [reflexivity | lia].
Qed.

Lemma length_kgrid (a : R) : List.length (kgrid a) = 100%nat.
Proof.
  unfold kgrid. rewrite length_map, length_seq. reflexivity.
Qed.

Lemma E_kgrid_run (solve : solver) (a U : R) (i : Z) :
  E solve (Seq (kgrid a)) (Some i) (Some a) (Some U)
  = (inr (band solve a U i), band_requests a U i).
Proof.
  unfold band, band_requests, kgrid.
  change (seq 0 100) with (0 :: seq 1 99)%nat. cbn [map].
  apply E_seq_run.
Qed.

Lemma labels_plotBands (solve : solver) (N : nat) (a U0b : R)
      (title : option string) (fig : figure) (ax : axes) :
  a <> 0 ->
  value (plotBands solve (Some (Z.of_nat N)) (Some a) (Some U0b) title)
  = inr (fig, ax) ->
  labels ax = map band_label (range (Z.of_nat N)).
Proof.
  intros Ha. rewrite plotBands_run by exact Ha. unfold value. cbn [fst].
  intros H. injection H as _ <-.
  unfold labels.
  rewrite (series_plots (fun ib => (kgrid a, snd ib, band_label (fst ib))))
    by reflexivity.
  rewrite map_map. cbn [snd].
  rewrite <- (map_map fst band_label), map_fst_enumerate.
  rewrite length_map, length_range, Z2Nat.id by lia. reflexivity.
Qed.

(** ** The dispersion residual *)

(** C4. Away from [K = 0] the residual is
    [(U0b / (2K)) sin(Ka) + cos(Ka) - cos(ka)], and it vanishes exactly when
    the Kronig-Penney relation [(U0b / (2K)) sin(Ka) + cos(Ka) = cos(ka)]
    holds.  The residual is a function of its four arguments and of nothing
    else: it makes no request and raises nothing. *)
Theorem Kronig_Penney_formula (K k a U0b : R) :
  K <> 0 ->
  _Kronig_Penney K k a U0b
  = Some (U0b / (2 * K) * sin (K * a) + cos (K * a) - cos (k * a))
  /\ (_Kronig_Penney K k a U0b = Some 0 <-> dispersion_relation K k a U0b).
Proof.
  intros HK. rewrite Kronig_Penney_run by exact HK.
  split; [reflexivity|].
  unfold dispersion_relation. split.
  - intros H. injection H as H. lra.
  - intros H. f_equal. lra.
Qed.

Lemma Kronig_Penney_formula_witness :
  1 <> 0
  /\ _Kronig_Penney 1 0 1 4
     = Some (4 / (2 * 1) * sin (1 * 1) + cos (1 * 1) - cos (0 * 1)).
Proof.
  split; [lra|].
  apply (Kronig_Penney_formula 1 0 1 4). lra.
Defined.

(** C8. The residual has no value at [K = 0]; the initial guess
    [(n + 1/2) pi] of every band index is different from zero; hence every
    request a call of the energy solver sends to the root-finder has a
    nonzero initial guess, at which the residual has a value. *)
Theorem solver_never_seeded_at_zero (solve : solver) (k : ndarray) (n : Z)
        (a U0b : R) :
  (forall k' a' U', _Kronig_Penney 0 k' a' U' = None)
  /\ (IZR n + 1 / 2) * PI <> 0
  /\ forall c : fsolve_call,
       In c (calls (E solve k (Some n) (Some a) (Some U0b))) ->
       fc_x0 c = (IZR n + 1 / 2) * PI
       /\ fc_x0 c <> 0
       /\ exists r : R,
            (let '(k', a', U') := fc_args c in fc_func c (fc_x0 c) k' a' U')
            = Some r.
Proof.
  split; [apply Kronig_Penney_at_zero|].
  split; [apply (initial_guess_nonzero n)|].
  intros c Hc. apply E_requests in Hc. destruct Hc as [x ->].
  cbn [request fc_x0 fc_args fc_func].
  split; [reflexivity|].
  split; [apply initial_guess_nonzero|].
  rewrite Kronig_Penney_run by apply initial_guess_nonzero.
  eexists. reflexivity.
Qed.

(** ** The energy solver *)

(** C2, as the code has it.  When no band index is given the solver uses
    band index 1, the second band counted from 0: the call equals the call
    with [n = 1], and every initial guess it hands out is [3/2 pi]. *)
Theorem E_default_band_is_one (solve : solver) (k : ndarray) (a U0b : option R) :
  E solve k None a U0b = E solve k (Some 1%Z) a U0b
  /\ forall c : fsolve_call,
       In c (calls (E solve k None a U0b)) -> fc_x0 c = 3 / 2 * PI.
Proof.
  split; [reflexivity|].
  intros c. rewrite E_resolve_defaults. cbn [arg_or].
  intros Hc. apply E_requests in Hc. destruct Hc as [x ->].
  cbn [request fc_x0]. unfold initial_guess. lra.
Qed.

(** C2, refuted as stated: with the root-finder that returns its initial
    guess, the default call yields [(3/2 pi)^2] and the call with [n = 0]
    yields [(1/2 pi)^2]. *)
Lemma default_band_is_lowest_fails : ~ default_band_is_lowest.
Proof.
  intros H. specialize (H seed_solver 0 1 4).
  rewrite !E_scalar_run in H. unfold value, root, seed_solver in H.
  cbn [fst] in H. injection H as H.
  unfold initial_guess in H.
  assert (HPI := PI_RGT_0). nra.
Qed.

(** C3, as the code has it.  The body of the solver sends one request to
    the root-finder, with initial guess [(n + 1/2) pi] and extra arguments
    [(k, a, U0b)], and returns the square of the answer; nothing is retried.
    A call with a scalar [k] returns that [K^2], and evaluates the body
    twice on [k]: once by the wrapper to learn the output type, once for the
    element.  The root-finder therefore receives the same request twice. *)
Theorem E_scalar_returns_root_squared (solve : solver) (k : R) (n : Z)
        (a U0b : R) :
  let x0 := (IZR n + 1 / 2) * PI in
  let K := solve (fun K => _Kronig_Penney K k a U0b) x0 in
  let req := FsolveCall _Kronig_Penney x0 (k, a, U0b) in
  E_pyfunc solve k n a U0b = (inr (K ^ 2), [req])
  /\ E solve (Scalar k) (Some n) (Some a) (Some U0b)
     = (inr (Scalar (K ^ 2)), [req; req]).
Proof.
  intros x0 K req. split.
  - apply E_pyfunc_run.
  - apply E_scalar_run.
Qed.

(** C3, refuted as stated: a scalar call leaves two requests, not one. *)
Lemma one_request_per_scalar_call_fails : ~ one_request_per_scalar_call.
Proof.
  intros H. specialize (H seed_solver 0 0%Z 1 4).
  rewrite E_scalar_run in H.
  apply (f_equal (fun m => List.length (snd m))) in H.
  discriminate H.
Qed.

(** C6, as the code has it.  On a sequence with at least one element the
    solver returns a sequence of the same length whose [j]-th element is
    what the solver returns on the scalar [k_j]; on the empty sequence the
    wrapper has no first element to learn the output type from and raises
    [ValueError]. *)
Theorem E_elementwise (solve : solver) (ks : list R) (n : Z) (a U0b : R) :
  match ks with
  | [] =>
      value (E solve (Seq ks) (Some n) (Some a) (Some U0b)) = inl ValueError
  | _ :: _ =>
      exists ys : list R,
        value (E solve (Seq ks) (Some n) (Some a) (Some U0b)) = inr (Seq ys)
        /\ List.length ys = List.length ks
        /\ forall (j : nat) (k : R),
             nth_error ks j = Some k ->
             exists y : R,
               nth_error ys j = Some y
               /\ value (E solve (Scalar k) (Some n) (Some a) (Some U0b))
                  = inr (Scalar y)
  end.
Proof.
  destruct ks as [|k0 ks]; [reflexivity|].
  exists (map (fun k => root solve k n a U0b ^ 2) (k0 :: ks)).
  rewrite E_seq_run. split; [reflexivity|].
  split; [apply length_map|].
  intros j k Hk. exists (root solve k n a U0b ^ 2). split.
  - apply (map_nth_error (fun x => root solve x n a U0b ^ 2)). exact Hk.
  - rewrite E_scalar_run. reflexivity.
Qed.

(** C6, refuted as stated: the sequence of length 0 yields no sequence. *)
Lemma elementwise_on_every_sequence_fails : ~ elementwise_on_every_sequence.
Proof.
  intros H. destruct (H seed_solver [] 0%Z 1 4) as [ys [Hv _]].
  rewrite E_empty in Hv. discriminate Hv.
Qed.

(** C7. The energy does not change when the wavenumber is negated, for a
    scalar and elementwise for a sequence: [k] enters the residual through
    [cos(k a)] only. *)
Theorem E_even (solve : solver) (k : ndarray) (n : option Z) (a U0b : option R) :
  (forall K x a' U', _Kronig_Penney K (- x) a' U' = _Kronig_Penney K x a' U')
  /\ value (E solve (negative k) n a U0b) = value (E solve k n a U0b).
Proof.
  split; [intros; apply Kronig_Penney_even|].
  rewrite (E_resolve_defaults solve k), (E_resolve_defaults solve (negative k)).
  destruct k as [x|[|k0 ks]]; cbn [negative map].
  - rewrite !E_scalar_run, root_even. reflexivity.
  - reflexivity.
  - rewrite !E_seq_run. unfold value. cbn [fst map].
    rewrite root_even, map_map. do 3 f_equal.
    apply map_ext. intros x. now rewrite root_even.
Qed.

(** ** The band assembler *)

(** C1, at the code.  The potential parameter given to [getBands] has no
    influence on what it does: the result and the requests are the same for
    any two values, and every request carries the potential 4. *)
Theorem getBands_ignores_U0b (solve : solver) (n : option Z) (a : option R)
        (U0b U0b' : option R) :
  getBands solve n a U0b = getBands solve n a U0b'
  /\ forall c : fsolve_call,
       In c (calls (getBands solve n a U0b)) -> snd (fc_args c) = 4.
Proof.
  split; [reflexivity|].
  change (getBands solve n a U0b)
    with (getBands solve (Some (arg_or n 3%Z)) (Some (arg_or a 1)) U0b).
  destruct (Req_dec_T (arg_or a 1) 0) as [Hz|Hnz].
  - rewrite Hz, getBands_zero_spacing. intros c [].
  - rewrite getBands_run by exact Hnz. unfold calls. cbn [snd].
    intros c Hc. apply in_flat_map in Hc. destruct Hc as [i [_ Hc]].
    destruct Hc as [<-|Hc]; [reflexivity|].
    apply in_map_iff in Hc. destruct Hc as [x [<- _]]. reflexivity.
Qed.

(** C5. For a band count [N] and a lattice spacing different from zero,
    [getBands] returns [N] bands; band [i] is what the energy solver returns
    on the sweep with band index [i], a sequence of 100 energies, the [j]-th
    being the squared answer of the root-finder for wavenumber [j]; the
    sweep has 100 wavenumbers [-pi/a + j (2 pi/a) / 99], each at the same
    distance [(2 pi/a) / 99] from the next, the first being [-pi/a] and the
    last [pi/a]. *)
Theorem getBands_shape (solve : solver) (N : nat) (a U0b : R) :
  a <> 0 ->
  exists bands : list ndarray,
    value (getBands solve (Some (Z.of_nat N)) (Some a) (Some U0b)) = inr bands
    /\ List.length bands = N
    /\ (forall i : nat, (i < N)%nat ->
          exists es : list R,
            nth_error bands i = Some (Seq es)
            /\ List.length es = 100%nat
            /\ value (E solve (Seq (kgrid a)) (Some (Z.of_nat i)) (Some a) (Some 4))
               = inr (Seq es)
            /\ forall j : nat, (j < 100)%nat ->
                 nth_error es j
                 = Some (root solve (sample a j) (Z.of_nat i) a 4 ^ 2))
    /\ value (brillouin_zone a) = inr (kgrid a)
    /\ List.length (kgrid a) = 100%nat
    /\ (forall j : nat, (j < 100)%nat ->
          nth_error (kgrid a) j = Some (- PI / a + INR j * (2 * PI / a / 99)))
    /\ (forall j : nat, (j < 99)%nat ->
          exists x y : R,
            nth_error (kgrid a) j = Some x
            /\ nth_error (kgrid a) (S j) = Some y
            /\ y - x = 2 * PI / a / 99)
    /\ nth_error (kgrid a) 0 = Some (- PI / a)
    /\ nth_error (kgrid a) 99 = Some (PI / a).
Proof.
  intros Ha.
  exists (map (band solve a 4) (range (Z.of_nat N))).
  rewrite getBands_run by exact Ha.
  split; [reflexivity|].
  split; [rewrite length_map, length_range; apply Nat2Z.id|].
  split.
  { intros i Hi.
    exists (map (fun k => root solve k (Z.of_nat i) a 4 ^ 2) (kgrid a)).
    split.
    - rewrite nth_error_map, nth_error_range by lia. reflexivity.
    - split; [rewrite length_map; apply length_kgrid|].
      split; [rewrite E_kgrid_run; reflexivity|].
      intros j Hj. rewrite nth_error_map, nth_error_kgrid by exact Hj.
      reflexivity. }
  split; [rewrite brillouin_zone_run by exact Ha; reflexivity|].
  split; [apply length_kgrid|].
  split.
  { intros j Hj. rewrite nth_error_kgrid by exact Hj.
    f_equal. unfold sample, Rdiv. ring. }
  split.
  { intros j Hj. exists (sample a j), (sample a (S j)).
    rewrite !nth_error_kgrid by lia.
    split; [reflexivity|]. split; [reflexivity|]. apply sample_step. }
  split.
  - rewrite nth_error_kgrid by lia. f_equal. apply sample_first.
  - rewrite nth_error_kgrid by lia. f_equal. apply sample_last. exact Ha.
Qed.

Lemma getBands_shape_witness :
  1 <> 0
  /\ exists bands : list ndarray,
       value (getBands seed_solver (Some (Z.of_nat 3)) (Some 1) (Some 4))
       = inr bands
       /\ List.length bands = 3%nat.
Proof.
  split; [lra|].
  destruct (getBands_shape seed_solver 3 1 4) as [bands [Hv [Hl _]]]; [lra|].
  exists bands. split; [exact Hv | exact Hl].
Defined.

(** C10. With a band count of zero and a lattice spacing different from
    zero, [getBands] returns the empty list, raises nothing and sends no
    request to the root-finder. *)
Theorem getBands_zero_bands (solve : solver) (a U0b : R) :
  a <> 0 ->
  getBands solve (Some 0%Z) (Some a) (Some U0b) = (inr [], []).
Proof.
  intros Ha. rewrite getBands_run by exact Ha. reflexivity.
Qed.

Lemma getBands_zero_bands_witness :
  1 <> 0 /\ getBands seed_solver (Some 0%Z) (Some 1) (Some 4) = (inr [], []).
Proof.
  split; [lra|].
  apply (getBands_zero_bands seed_solver 1 4). lra.
Defined.

(** ** The presenter *)

(** C9, as the code has it.  For a band count [N] and a lattice spacing
    different from zero, [plotBands] hands [N] series to the axes, in band
    order; series [i] pairs the sweep with band [i] of [getBands] and is
    labelled [$i$-th band], the index between dollar signs (math text). *)
Theorem plotBands_series (solve : solver) (N : nat) (a U0b : R)
        (title : option string) :
  a <> 0 ->
  exists (fig : figure) (ax : axes) (bands : list ndarray),
    value (plotBands solve (Some (Z.of_nat N)) (Some a) (Some U0b) title)
    = inr (fig, ax)
    /\ value (getBands solve (Some (Z.of_nat N)) (Some a) (Some U0b)) = inr bands
    /\ series ax
       = map (fun ib => (kgrid a, snd ib, band_label (fst ib))) (enumerate bands)
    /\ List.length (series ax) = N
    /\ labels ax
       = map (fun i => ("$" ++ format_int i ++ "$-th band")%string)
             (range (Z.of_nat N)).
Proof.
  intros Ha.
  pose proof (plotBands_run solve (Z.of_nat N) a U0b title Ha) as Hrun.
  eexists _, _, _. rewrite Hrun.
  split; [reflexivity|].
  split; [rewrite getBands_run by exact Ha; reflexivity|].
  assert (Hs : forall t,
             series (map (fun ib => plot (kgrid a) (snd ib) (band_label (fst ib)))
                         (enumerate (map (band solve a 4) (range (Z.of_nat N))))
                     ++ decoration t)
             = map (fun ib => (kgrid a, snd ib, band_label (fst ib)))
                   (enumerate (map (band solve a 4) (range (Z.of_nat N))))).
  { intros t.
    apply (series_plots (fun ib => (kgrid a, snd ib, band_label (fst ib)))).
    reflexivity. }
  split; [apply Hs|].
  split.
  - rewrite Hs, length_map. unfold enumerate.
    rewrite length_combine, !length_range, length_map, length_range.
    rewrite !Nat2Z.id. apply Nat.min_id.
  - eapply labels_plotBands; [exact Ha|].
    rewrite Hrun. reflexivity.
Qed.

Lemma plotBands_series_witness :
  1 <> 0
  /\ exists (fig : figure) (ax : axes),
       value (plotBands seed_solver (Some (Z.of_nat 2)) (Some 1) (Some 4) None)
       = inr (fig, ax)
       /\ labels ax = ["$0$-th band"; "$1$-th band"]%string.
Proof.
  split; [lra|].
  destruct (plotBands_series seed_solver 2 1 4 None) as [fig [ax [bs H]]]; [lra|].
  exists fig, ax. split; [apply H|]. apply H.
Defined.

(** C9, refuted as stated: the label of the only series of
    [plotBands(1)] is [$0$-th band], not [0-th band]. *)
Lemma labels_are_plain_fails : ~ labels_are_plain.
Proof.
  intros H.
  destruct (H seed_solver 1%nat 1 4 None) as [fig [ax [Hv Hl]]]; [lra|].
  rewrite (labels_plotBands seed_solver 1 1 4 None fig ax) in Hl by (lra || exact Hv).
  discriminate Hl.
Qed.

(** ** Further facts about the sweep, the requests and the axes *)

Lemma range_nonpos (n : Z) : (n <= 0)%Z -> range n = [].
Proof.
  intros Hn. unfold range. replace (Z.to_nat n) with 0%nat by lia. reflexivity.
Qed.

Lemma range_firstn (n n' : Z) :
  (n <= n')%Z -> range n = firstn (Z.to_nat n) (range n').
Proof.
  intros Hn. unfold range. rewrite firstn_map. f_equal.
  replace (Z.to_nat n') with (Z.to_nat n + (Z.to_nat n' - Z.to_nat n))%nat by lia.
  rewrite seq_app, firstn_app, length_seq, Nat.sub_diag, firstn_O, app_nil_r.
  rewrite firstn_all2 by (rewrite length_seq; lia). reflexivity.
Qed.

Lemma length_band_requests (a U : R) (i : Z) :
  List.length (band_requests a U i) = 101%nat.
Proof.
  unfold band_requests. cbn [List.length].
  rewrite length_map, length_kgrid. reflexivity.
Qed.

Lemma length_flat_map_const {A B : Type} (f : A -> list B) (c : nat)
      (xs : list A) :
  (forall x, List.length (f x) = c) ->
  List.length (flat_map f xs) = (c * List.length xs)%nat.
Proof.
  intros Hf. induction xs as [|x xs IH]; cbn [flat_map List.length].
  - lia.
  - rewrite length_app, Hf, IH. lia.
Qed.

Lemma titles_plots {B : Type} (h : B -> ax_call) (xs : list B)
      (rest : list ax_call) :
  (forall x, is_plot (h x)) -> titles (map h xs ++ rest) = titles rest.
Proof.
  intros Hh. unfold titles. rewrite flat_map_app.
  induction xs as [|x xs IH]; cbn [map flat_map]; [reflexivity|].
  specialize (Hh x). destruct (h x); try contradiction. exact IH.
Qed.

(** Sample [j] is [(2j - 99) / 99] times [pi / a]. *)
Lemma sample_odd_multiple (a : R) (j : nat) :
  a <> 0 -> sample a j = PI / a * ((2 * INR j - 99) / 99).
Proof.
  intros Ha. unfold sample. field. exact Ha.
Qed.

Lemma sample_nonzero (a : R) (j : nat) : a <> 0 -> sample a j <> 0.
Proof.
  intros Ha H. rewrite sample_odd_multiple in H by exact Ha.
  assert (HPI := PI_RGT_0).
  assert (Hq : PI / a <> 0).
  { unfold Rdiv. apply Rmult_integral_contrapositive_currified; [lra|].
    apply Rinv_neq_0_compat. exact Ha. }
  apply Rmult_integral in H. destruct H as [H|H]; [contradiction|].
  assert (H2 : 2 * INR j = 99) by lra.
  rewrite INR_IZR_INZ, <- mult_IZR in H2.
  apply eq_IZR in H2. lia.
Qed.

(** ** The residual, beyond the formula *)

(** X1. The residual is even in the trial value [K]: [K] and [-K] give the
    same residual, and both give none at zero.  Roots therefore come in
    pairs of opposite sign with the same energy [K^2]. *)
Theorem Kronig_Penney_even_in_K (K k a U0b : R) :
  _Kronig_Penney (- K) k a U0b = _Kronig_Penney K k a U0b.
Proof.
  destruct (Req_dec_T K 0) as [->|HK].
  - replace (- 0) with 0 by lra. reflexivity.
  - rewrite !Kronig_Penney_run by lra. f_equal.
    replace (- K * a) with (- (K * a)) by lra.
    rewrite sin_neg, cos_neg. field. exact HK.
Qed.

(** X2. Without potential ([U0b = 0]) the free-electron value [K = k] is a
    root of the residual for every wavenumber [k] other than zero, and so is
    [K = -k]. *)
Theorem Kronig_Penney_free_electron (k a : R) :
  k <> 0 ->
  _Kronig_Penney k k a 0 = Some 0 /\ _Kronig_Penney (- k) k a 0 = Some 0.
Proof.
  intros Hk. rewrite !Kronig_Penney_run by lra.
  replace (- k * a) with (- (k * a)) by lra. rewrite cos_neg.
  split; f_equal; unfold Rdiv; ring.
Qed.

Lemma Kronig_Penney_free_electron_witness :
  1 <> 0 /\ _Kronig_Penney 1 1 1 0 = Some 0.
Proof.
  split; [lra|].
  apply (Kronig_Penney_free_electron 1 1). lra.
Defined.

(** ** The energy solver, beyond one sample *)



(** X4. On a sequence of [m >= 1] wavenumbers the solver sends [m + 1]
    requests to the root-finder: first the request for the first wavenumber
    (the probe of the wrapper), then one request per wavenumber in sequence
    order, each with the initial guess of the band and the given [a] and
    [U0b]. *)
Theorem E_sequence_requests (solve : solver) (k0 : R) (ks : list R) (n : Z)
        (a U0b : R) :
  calls (E solve (Seq (k0 :: ks)) (Some n) (Some a) (Some U0b))
  = FsolveCall _Kronig_Penney ((IZR n + 1 / 2) * PI) (k0, a, U0b)
    :: map (fun k => FsolveCall _Kronig_Penney ((IZR n + 1 / 2) * PI) (k, a, U0b))
           (k0 :: ks)
  /\ List.length (calls (E solve (Seq (k0 :: ks)) (Some n) (Some a) (Some U0b)))
     = S (List.length (k0 :: ks)).
Proof.
  rewrite E_seq_run. unfold calls. cbn [snd]. split; [reflexivity|].
  cbn [List.length]. rewrite length_map. reflexivity.
Qed.

(** X5. Whatever the root-finder answers, no energy the solver returns is
    negative: each one is a square. *)
Theorem E_nonnegative (solve : solver) (k : ndarray) (n : option Z)
        (a U0b : option R) :
  match value (E solve k n a U0b) with
  | inr es => nonnegative es
  | inl _ => True
  end.
Proof.
  rewrite E_resolve_defaults.
  destruct k as [x|[|k0 ks]].
  - rewrite E_scalar_run. unfold value. cbn [fst nonnegative].
    apply pow2_ge_0.
  - rewrite E_empty. exact I.
  - rewrite E_seq_run. unfold value. cbn [fst nonnegative].
    apply Forall_forall. intros e He.
    apply in_map_iff in He. destruct He as [x [<- _]]. apply pow2_ge_0.
Qed.

(** ** The sweep *)

(** X6. The sweep has an even number of samples placed symmetrically, so it
    never contains the zone centre: no wavenumber of the sweep is zero. *)
Theorem brillouin_zone_misses_centre (a : R) :
  a <> 0 ->
  exists ks : list R,
    value (brillouin_zone a) = inr ks /\ Forall (fun k => k <> 0) ks.
Proof.
  intros Ha. exists (kgrid a).
  rewrite brillouin_zone_run by exact Ha. split; [reflexivity|].
  apply Forall_forall. intros k Hk. unfold kgrid in Hk.
  apply in_map_iff in Hk. destruct Hk as [j [<- _]].
  apply sample_nonzero. exact Ha.
Qed.

Lemma brillouin_zone_misses_centre_witness :
  1 <> 0
  /\ exists ks : list R,
       value (brillouin_zone 1) = inr ks /\ Forall (fun k => k <> 0) ks.
Proof.
  split; [lra|].
  apply (brillouin_zone_misses_centre 1). lra.
Defined.

(** ** The band assembler, beyond the shape *)

(** X7. A lattice spacing of zero makes [getBands] raise
    [ZeroDivisionError] while it builds the sweep, before any request reaches
    the root-finder, whatever the band count and the potential; and this is
    the only way [getBands] raises. *)
Theorem getBands_raises_iff_zero_spacing (solve : solver) (n : option Z)
        (a : R) (U0b : option R) :
  (a = 0 -> getBands solve n (Some a) U0b = (inl ZeroDivisionError, []))
  /\ ((exists e : exn, value (getBands solve n (Some a) U0b) = inl e) -> a = 0).
Proof.
  split.
  - intros ->. apply getBands_zero_spacing.
  - intros [e He]. destruct (Req_dec_T a 0) as [Hz|Hnz]; [exact Hz|].
    change (getBands solve n (Some a) U0b)
      with (getBands solve (Some (arg_or n 3%Z)) (Some a) U0b) in He.
    rewrite getBands_run in He by exact Hnz. discriminate He.
Qed.

(** X8. A band count that is zero or negative yields the empty list of
    bands, without an exception and without a request to the root-finder. *)
Theorem getBands_nonpositive_count (solve : solver) (n : Z) (a : R)
        (U0b : option R) :
  (n <= 0)%Z -> a <> 0 ->
  getBands solve (Some n) (Some a) U0b = (inr [], []).
Proof.
  intros Hn Ha. rewrite getBands_run by exact Ha.
  rewrite range_nonpos by exact Hn. reflexivity.
Qed.

Lemma getBands_nonpositive_count_witness :
  (-2 <= 0)%Z /\ 1 <> 0
  /\ getBands seed_solver (Some (-2)%Z) (Some 1) (Some 4) = (inr [], []).
Proof.
  split; [lia|]. split; [lra|].
  apply (getBands_nonpositive_count seed_solver (-2) 1 (Some 4)); [lia | lra].
Defined.

(** X9. Computing [n] bands sends [101 * n] requests to the root-finder:
    for each band the 100 samples of the sweep and the probe of the
    wrapper. *)
Theorem getBands_request_count (solve : solver) (n : Z) (a : R)
        (U0b : option R) :
  a <> 0 ->
  List.length (calls (getBands solve (Some n) (Some a) U0b))
  = (101 * Z.to_nat n)%nat.
Proof.
  intros Ha. rewrite getBands_run by exact Ha. unfold calls. cbn [snd].
  rewrite (length_flat_map_const _ 101) by apply length_band_requests.
  rewrite length_range. reflexivity.
Qed.

Lemma getBands_request_count_witness :
  1 <> 0
  /\ List.length (calls (getBands seed_solver (Some 3%Z) (Some 1) (Some 4)))
     = 303%nat.
Proof.
  split; [lra|].
  apply (getBands_request_count seed_solver 3 1 (Some 4)). lra.
Defined.

(** X10. Bands do not depend on how many are asked for: the bands of a
    smaller count are the first bands of a larger count. *)
Theorem getBands_prefix (solve : solver) (n n' : Z) (a : R)
        (U0b U0b' : option R) :
  a <> 0 -> (n <= n')%Z ->
  exists bands bands' : list ndarray,
    value (getBands solve (Some n) (Some a) U0b) = inr bands
    /\ value (getBands solve (Some n') (Some a) U0b') = inr bands'
    /\ bands = firstn (Z.to_nat n) bands'.
Proof.
  intros Ha Hn.
  exists (map (band solve a 4) (range n)), (map (band solve a 4) (range n')).
  rewrite !getBands_run by exact Ha.
  split; [reflexivity|]. split; [reflexivity|].
  rewrite firstn_map. f_equal. apply range_firstn. exact Hn.
Qed.

Lemma getBands_prefix_witness :
  1 <> 0 /\ (1 <= 3)%Z
  /\ exists bands bands' : list ndarray,
       value (getBands seed_solver (Some 1%Z) (Some 1) (Some 4)) = inr bands
       /\ value (getBands seed_solver (Some 3%Z) (Some 1) (Some 4)) = inr bands'
       /\ bands = firstn 1 bands'.
Proof.
  split; [lra|]. split; [lia|].
  apply (getBands_prefix seed_solver 1 3 1 (Some 4) (Some 4)); [lra | lia].
Defined.

(** X11. In every band the energy at the first sample, [-pi/a], equals the
    energy at the last sample, [pi/a]: the two zone edges are opposite
    wavenumbers and the solver is even. *)
Theorem getBands_edges_agree (solve : solver) (n : Z) (a : R) (U0b : option R) :
  a <> 0 ->
  exists bands : list ndarray,
    value (getBands solve (Some n) (Some a) U0b) = inr bands
    /\ Forall (fun b => match b with
                        | Seq es => nth_error es 0 = nth_error es 99
                                    /\ nth_error es 0 <> None
                        | Scalar _ => False
                        end) bands.
Proof.
  intros Ha. exists (map (band solve a 4) (range n)).
  rewrite getBands_run by exact Ha. split; [reflexivity|].
  apply Forall_forall. intros b Hb.
  apply in_map_iff in Hb. destruct Hb as [i [<- _]].
  unfold band. rewrite !nth_error_map, !nth_error_kgrid by lia.
  cbn [option_map]. split; [|discriminate].
  rewrite sample_first, sample_last by exact Ha.
  replace (- PI / a) with (- (PI / a)) by (unfold Rdiv; ring).
  rewrite root_even. reflexivity.
Qed.

Lemma getBands_edges_agree_witness :
  1 <> 0
  /\ exists bands : list ndarray,
       value (getBands seed_solver (Some 2%Z) (Some 1) (Some 4)) = inr bands
       /\ Forall (fun b => match b with
                           | Seq es => nth_error es 0 = nth_error es 99
                                       /\ nth_error es 0 <> None
                           | Scalar _ => False
                           end) bands.
Proof.
  split; [lra|].
  apply (getBands_edges_agree seed_solver 2 1 (Some 4)). lra.
Defined.

(** ** The presenter, beyond the labels *)


(** X13. Plotting costs no request of its own: [plotBands] sends the
    root-finder exactly the requests of [getBands].  Like [getBands], it
    gives the same figure, axes and requests for any two values of the
    potential parameter. *)
Theorem plotBands_requests (solve : solver) (n : option Z) (a : option R)
        (U0b U0b' : option R) (title : option string) :
  calls (plotBands solve n a U0b title) = calls (getBands solve n a U0b)
  /\ plotBands solve n a U0b title = plotBands solve n a U0b' title.
Proof.
  split; [|reflexivity].
  change (plotBands solve n a U0b title)
    with (plotBands solve (Some (arg_or n 3%Z)) (Some (arg_or a 1))
                    (Some (arg_or U0b 4)) title).
  change (getBands solve n a U0b)
    with (getBands solve (Some (arg_or n 3%Z)) (Some (arg_or a 1)) U0b).
  destruct (Req_dec_T (arg_or a 1) 0) as [Hz|Hnz].
  - rewrite Hz, getBands_zero_spacing.
    unfold plotBands. cbn [arg_or].
    erewrite bind_raise by apply brillouin_zone_zero. reflexivity.
  - rewrite plotBands_run, getBands_run by exact Hnz. reflexivity.
Qed.

(** X14. The axes are given one title: the caller's when there is one (the
    empty string included), and otherwise [Plotting of n bands] with the
    band count in decimal. *)
Theorem plotBands_title (solve : solver) (n : Z) (a U0b : R)
        (title : option string) :
  a <> 0 ->
  exists (fig : figure) (ax : axes),
    value (plotBands solve (Some n) (Some a) (Some U0b) title) = inr (fig, ax)
    /\ titles ax
       = [match title with
          | Some t => t
          | None => ("Plotting of " ++ format_int n ++ " bands")%string
          end].
Proof.
  intros Ha. eexists _, _.
  rewrite plotBands_run by exact Ha. split; [reflexivity|].
  rewrite titles_plots by (intros x; exact I). reflexivity.
Qed.

Lemma plotBands_title_witness :
  1 <> 0
  /\ exists (fig : figure) (ax : axes),
       value (plotBands seed_solver (Some 3%Z) (Some 1) (Some 4) None)
       = inr (fig, ax)
       /\ titles ax = ["Plotting of 3 bands"%string].
Proof.
  split; [lra|].
  apply (plotBands_title seed_solver 3 1 4 None). lra.
Defined.

(** X15. [plotBands] returns a figure of size 5 by 15 at 200 dpi whose axes
    received, in this order: one plot call per band, then the x label, the y
    label, the title, the minor ticks, the grid and, last, the legend.  The
    legend is therefore requested after every series is present; with a
    band count of zero or less the axes are decorated all the same. *)
Theorem plotBands_call_order (solve : solver) (n : Z) (a U0b : R)
        (title : option string) :
  a <> 0 ->
  exists (ax plots : list ax_call) (t : string),
    value (plotBands solve (Some n) (Some a) (Some U0b) title)
    = inr (Figure (5, 15)%Z 200%Z, ax)
    /\ ax = plots ++ [set_xlabel "$k$"; set_ylabel "$2m E/\hbar^2$";
                      set_title t; minorticks_on; grid true; legend]
    /\ Forall is_plot plots
    /\ List.length plots = Z.to_nat n.
Proof.
  intros Ha. eexists _, _, _.
  rewrite plotBands_run by exact Ha.
  split; [reflexivity|]. split; [reflexivity|]. split.
  - apply Forall_forall. intros c Hc.
    apply in_map_iff in Hc. destruct Hc as [ib [<- _]]. exact I.
  - rewrite length_map. unfold enumerate.
    rewrite length_combine, !length_range, length_map, length_range.
    rewrite !Nat2Z.id. apply Nat.min_id.
Qed.

Lemma plotBands_call_order_witness :
  1 <> 0
  /\ exists (ax plots : list ax_call) (t : string),
       value (plotBands seed_solver (Some 0%Z) (Some 1) (Some 4) None)
       = inr (Figure (5, 15)%Z 200%Z, ax)
       /\ ax = plots ++ [set_xlabel "$k$"; set_ylabel "$2m E/\hbar^2$";
                         set_title t; minorticks_on; grid true; legend]
       /\ Forall is_plot plots
       /\ List.length plots = 0%nat.
Proof.
  split; [lra|].
  apply (plotBands_call_order seed_solver 0 1 4 None). lra.
Defined.

(** X16. Run as a script, the module plots with every default: it raises
    nothing, plots three bands labelled [$0$-th band], [$1$-th band] and
    [$2$-th band] under the title [Plotting of 3 bands], and sends 303
    requests to the root-finder, each with lattice spacing 1 and
    potential 4. *)
Theorem main_plots_three_bands (solve : solver) :
  exists (fig : figure) (ax : axes),
    value (main solve) = inr (fig, ax)
    /\ labels ax = ["$0$-th band"; "$1$-th band"; "$2$-th band"]%string
    /\ titles ax = ["Plotting of 3 bands"%string]
    /\ List.length (calls (main solve)) = 303%nat
    /\ Forall (fun c => snd (fst (fc_args c)) = 1 /\ snd (fc_args c) = 4)
              (calls (main solve)).
Proof.
  assert (H1 : (1 : R) <> 0) by lra.
  change (main solve) with (plotBands solve (Some 3%Z) (Some 1) (Some 4) None).
  pose proof (plotBands_run solve 3 1 4 None H1) as Hrun.
  unfold value, calls. rewrite Hrun. cbn [fst snd].
  eexists _, _.
  split; [reflexivity|]. split.
  { apply (labels_plotBands solve 3 1 4 None (Figure (5, 15)%Z 200%Z) _ H1).
    change (Z.of_nat 3) with 3%Z. rewrite Hrun. reflexivity. }
  split.
  { rewrite titles_plots by (intros x; exact I). reflexivity. }
  split.
  { rewrite (length_flat_map_const _ 101) by apply length_band_requests.
    reflexivity. }
  apply Forall_forall. intros c Hc.
  apply in_flat_map in Hc. destruct Hc as [i [_ Hc]].
  destruct Hc as [<-|Hc]; [split; reflexivity|].
  apply in_map_iff in Hc. destruct Hc as [x [<- _]]. split; reflexivity.
Qed.
